(** * lines-around-directive: blank lines around the 'use strict' directive

    A shallow embedding of [lib/rules/lines-around-directive.js] and the
    properties of the rule that follow from it.

    The rule is a handler [checkDirectives] registered for the four
    scope-like node types.  It reads the body of the node, the comments
    the parser attached to the first statement, and two lookups of the
    [sourceCode] object; it writes by calling [context.report].  A property
    access on [undefined] or [null] raises a [TypeError]; reports made
    before the exception stay made.  Both effects are explicit below:
    a handler is a function from the reports so far to a completion and
    the reports afterwards. *)

From Stdlib Require Import ZArith Lia String Ascii.
From stdpp Require Import base list strings.

Local Open Scope Z_scope.
Local Open Scope string_scope.

(** ** The AST as the rule sees it *)

(** [loc.start.line] and [loc.end.line] are integer-valued numbers. *)
Record Position := { line : Z; column : Z }.

Record SourceLocation := { start : Position; end_ : Position }.

(** Comments and tokens are the same kind of object to this rule: it only
    reads their [loc]. *)
Record Token := {
  token_type : string;
  token_value : string;
  token_loc : SourceLocation
}.

Definition Comment := Token.

(** The [value] of a [Literal] node. *)
Inductive LiteralValue :=
| LString (s : string)
| LNumber (n : Z)
| LBoolean (b : bool)
| LNull
| LRegExp.

Inductive Expression :=
| Literal (value : LiteralValue)
| OtherExpression.

Inductive StatementType :=
| ExpressionStatement (expression : Expression)
| OtherStatement.

(** A statement node.  [ref] is the identity of the object: [===] on two
    nodes compares it.  [leadingComments] is [None] where the property is
    not set on the node. *)
Record Statement := {
  ref : nat;
  type : StatementType;
  statement_loc : SourceLocation;
  leadingComments : option (list Comment)
}.

(** Everything with a [loc] property. *)
Class Located (A : Type) := loc : A -> SourceLocation.

#[export] Instance token_located : Located Token := token_loc.
#[export] Instance statement_located : Located Statement := statement_loc.

(** The body of an arrow function is a block or an expression. *)
Inductive ArrowBody :=
| BlockStatement (body : list Statement)
| ExpressionBody (e : Expression).

(** The nodes [checkDirectives] is registered for.  The body of a
    [Program] is its statement list; the body of a function declaration or
    expression is always a block, given here by the block's own [body]. *)
Inductive ScopeNode :=
| Program (body : list Statement)
| FunctionDeclaration (block_body : list Statement)
| FunctionExpression (block_body : list Statement)
| ArrowFunctionExpression (body : ArrowBody).

(** ** Collaborators *)

(** [sourceCode.getComments(node)] *)
Record Comments := { leading : list Comment; trailing : list Comment }.

(** The two methods of [sourceCode] the rule calls.  [getTokenAfter]
    gives [None] for [null]. *)
Record SourceCode := {
  getComments : Statement -> Comments;
  getTokenAfter : Statement -> option Token
}.

(** The descriptor handed to [context.report]. *)
Record ReportData := { expected : string; location : string }.

Record Report := {
  node : Statement;
  message : string;
  data : ReportData
}.

(** Rule options: the schema admits a string or an object with both
    [before] and [after]. *)
Inductive Config :=
| ConfigString (s : string)
| ConfigObject (before after : string).

Record Mode := { mode_before : string; mode_after : string }.

Record Context := {
  getSourceCode : SourceCode;
  options : list Config
}.

(** ** Completions and the handler monad *)

Inductive Error := TypeError.

Inductive Completion (A : Type) :=
| Normal (a : A)
| Throw (e : Error).

Arguments Normal {A} a.
Arguments Throw {A} e.

Definition Rule (A : Type) : Type := list Report -> Completion A * list Report.

Definition ret {A} (a : A) : Rule A := fun rs => (Normal a, rs).

Definition bind {A B} (m : Rule A) (k : A -> Rule B) : Rule B :=
  fun rs =>
    match m rs with
    | (Normal a, rs') => k a rs'
    | (Throw e, rs') => (Throw e, rs')
    end.

(** A computation that reads but does not report. *)
Definition lift {A} (c : Completion A) : Rule A := fun rs => (c, rs).

(** [context.report(descriptor)] *)
Definition report (r : Report) : Rule unit := fun rs => (Normal tt, (rs ++ [r])%list).

Declare Scope rule_scope.
Delimit Scope rule_scope with rule.

Notation "x <- m ;; k" := (bind m (fun x => k))
  (at level 100, m at next level, right associativity) : rule_scope.
Notation "m ;; k" := (bind m (fun _ => k))
  (at level 100, right associativity) : rule_scope.

Local Open Scope rule_scope.

(** [l[i]] for a JavaScript number [i]: [undefined] out of range. *)
Definition index {A} (l : list A) (i : Z) : option A :=
  if decide (0 <= i) then l !! Z.to_nat i else None.

(** ** The rule *)

(** [options[0] || "always"]: the empty string is the one falsy option the
    type has. *)
Definition config_or_default (o : option Config) : Config :=
  match o with
  | None => ConfigString "always"
  | Some (ConfigString "") => ConfigString "always"
  | Some c => c
  end.

Definition generateMode (config : Config) : Mode :=
  match config with
  | ConfigString s => {| mode_before := s; mode_after := s |}
  | ConfigObject b a => {| mode_before := b; mode_after := a |}
  end.

(** [value === "use strict"] *)
Definition value_is (v : LiteralValue) (s : string) : bool :=
  match v with
  | LString s' => bool_decide (s' = s)
  | _ => false
  end.

Definition isNodeUseStrictDirective (node : option Statement) : Completion bool :=
  match node with
  | None => Throw TypeError
  | Some node =>
      match type node with
      | ExpressionStatement (Literal value) => Normal (value_is value "use strict")
      | ExpressionStatement OtherExpression => Normal false
      | OtherStatement => Normal false
      end
  end.

Definition getUseStrictDirective (body : list Statement) : Completion (option Statement) :=
  let firstStatement := index body 0 in
  match isNodeUseStrictDirective firstStatement with
  | Normal true => Normal firstStatement
  | Normal false => Normal None
  | Throw e => Throw e
  end.

Definition hasNewlineBefore (node : Statement) (comments : list Comment) : Completion bool :=
  match index comments (Z.of_nat (length comments) - 1) with
  | None => Throw TypeError
  | Some comment =>
      Normal (bool_decide (line (start (loc node)) - line (end_ (loc comment)) >= 2))
  end.

Section Rule.

(** The variables of [create] the helpers close over. *)
Variable sourceCode : SourceCode.
Variable mode : Mode.

Definition hasNewlineAfter (node : Statement) : Completion bool :=
  let trailingComments := trailing (getComments sourceCode node) in
  let tokenAfter :=
    if bool_decide (length trailingComments ≠ 0%nat)
    then index trailingComments 0
    else getTokenAfter sourceCode node in
  match tokenAfter with
  | None => Throw TypeError
  | Some tokenAfter =>
      Normal (bool_decide (line (start (loc tokenAfter)) - line (end_ (loc node)) >= 2))
  end.

Definition reportError (node : Statement) (location : string) (expected : bool) : Rule unit :=
  report {|
    node := node;
    message := "{{expected}} newline {{location}} 'use strict' directive.";
    data := {| expected := if expected then "Expected" else "Unexpected";
               location := location |}
  |}.

(** [directive === body[body.length - 1]] *)
Definition same_node (directive : Statement) (other : option Statement) : bool :=
  match other with
  | Some other => bool_decide (ref directive = ref other)
  | None => false
  end.

(** Lines 149-158: the check before the directive. *)
Definition checkBefore (directive : Statement) : Rule unit :=
  match leadingComments directive with
  | Some leadingComments =>
      if bool_decide (length leadingComments ≠ 0%nat) then
        (if bool_decide (mode_before mode = "always") then
           newline <- lift (hasNewlineBefore directive leadingComments) ;;
           if negb newline then reportError directive "before" true else ret tt
         else ret tt) ;;
        (if bool_decide (mode_before mode = "never") then
           newline <- lift (hasNewlineBefore directive leadingComments) ;;
           if newline then reportError directive "before" false else ret tt
         else ret tt)
      else ret tt
  | None => ret tt
  end.

(** Lines 160-171: the check after the directive. *)
Definition checkAfter (body : list Statement) (directive : Statement) : Rule unit :=
  if same_node directive (index body (Z.of_nat (length body) - 1)) then ret tt
  else
    (if bool_decide (mode_after mode = "always") then
       newline <- lift (hasNewlineAfter directive) ;;
       if negb newline then reportError directive "after" true else ret tt
     else ret tt) ;;
    (if bool_decide (mode_after mode = "never") then
       newline <- lift (hasNewlineAfter directive) ;;
       if newline then reportError directive "after" false else ret tt
     else ret tt).

Definition checkBody (body : list Statement) : Rule unit :=
  directive <- lift (getUseStrictDirective body) ;;
  match directive with
  | None => ret tt
  | Some directive =>
      checkBefore directive ;;
      checkAfter body directive
  end.

Definition checkDirectives (node : ScopeNode) : Rule unit :=
  match node with
  | ArrowFunctionExpression (ExpressionBody _) => ret tt
  | Program body => checkBody body
  | FunctionDeclaration body => checkBody body
  | FunctionExpression body => checkBody body
  | ArrowFunctionExpression (BlockStatement body) => checkBody body
  end.

End Rule.

(** [create(context)] returns the same handler for all four node types. *)
Definition create (context : Context) : ScopeNode -> Rule unit :=
  let sourceCode := getSourceCode context in
  let config := config_or_default (index (options context) 0) in
  let mode := generateMode config in
  checkDirectives sourceCode mode.

(** ** The reporter's message *)

(** [term in data ? data[term] : fullMatch] *)
Definition data_lookup (d : ReportData) (term : string) : option string :=
  if bool_decide (term = "expected") then Some (expected d)
  else if bool_decide (term = "location") then Some (location d)
  else None.

(** Modelled from the spec: the substitution of the [{{name}}] placeholders
    of a message by the entries of its [data], which the reporting layer
    does and which is not part of the rule's file.  [pending] holds the
    characters read since an opening [{{]; a placeholder with no entry, or
    one that is never closed, is left as it was written. *)
Fixpoint interpolate (d : ReportData) (pending : option string) (s : string) : string :=
  match s with
  | EmptyString =>
      match pending with
      | None => ""
      | Some term => "{{" ++ term
      end
  | String c rest =>
      match pending with
      | None =>
          match rest with
          | String c' rest' =>
              if bool_decide (c = "{"%char) && bool_decide (c' = "{"%char)
              then interpolate d (Some "") rest'
              else String c (interpolate d None rest)
          | EmptyString => String c ""
          end
      | Some term =>
          match rest with
          | String c' rest' =>
              if bool_decide (c = "}"%char) && bool_decide (c' = "}"%char)
                 && negb (bool_decide (term = ""))
              then
                match data_lookup d term with
                | Some v => v
                | None => "{{" ++ term ++ "}}"
                end ++ interpolate d None rest'
              else interpolate d (Some (term ++ String c "")) rest
          | EmptyString => "{{" ++ term ++ String c ""
          end
      end
  end.

(** The message a report shows. *)
Definition rendered (r : Report) : string := interpolate (data r) None (message r).

(** ** Vocabulary of the specification *)

(** An expression statement whose expression is the literal "use strict". *)
Definition IsUseStrictDirective (s : Statement) : Prop :=
  type s = ExpressionStatement (Literal (LString "use strict")).

(** The statement list of a scope; an arrow function with an expression
    body has none. *)
Definition statements (n : ScopeNode) : option (list Statement) :=
  match n with
  | Program body => Some body
  | FunctionDeclaration body => Some body
  | FunctionExpression body => Some body
  | ArrowFunctionExpression (BlockStatement body) => Some body
  | ArrowFunctionExpression (ExpressionBody _) => None
  end.

(** The directive is the very object at the end of the body. *)
Definition IsLastStatement (body : list Statement) (d : Statement) : Prop :=
  exists l, last body = Some l /\ ref l = ref d.

(** What "after" is measured against: the first trailing comment, or else
    the next token. *)
Definition following (sc : SourceCode) (d : Statement) : option Token :=
  match trailing (getComments sc d) with
  | c :: _ => Some c
  | [] => getTokenAfter sc d
  end.

(** A blank line lies between two lines when they are two or more apart. *)
Definition blank_between (upper lower : Z) : Prop := lower - upper >= 2.

(** The side a report is about. *)
Definition side (r : Report) : string := location (data r).

(** The text of the four diagnostics. *)
Definition diagnostic_text (expect : bool) (where_ : string) : string :=
  (if expect then "Expected" else "Unexpected")
    ++ " newline " ++ where_ ++ " 'use strict' directive.".

(** A side is in violation of its policy. *)
Definition violates (policy : string) (blank : Prop) : Prop :=
  (policy = "always" /\ ~ blank) \/ (policy = "never" /\ blank).

(** The reports of a handler started with none, and its completion. *)
Definition reports (h : Rule unit) : list Report := snd (h []).
Definition completion (h : Rule unit) : Completion unit := fst (h []).

(** The context of a run with the given options. *)
Definition with_options (sc : SourceCode) (os : list Config) : Context :=
  {| getSourceCode := sc; options := os |}.

(** ** Sample programs *)

Definition on_line (l : Z) : SourceLocation :=
  {| start := {| line := l; column := 0 |}; end_ := {| line := l; column := 13 |} |}.

Definition line_comment (l : Z) : Comment :=
  {| token_type := "Line"; token_value := " comment"; token_loc := on_line l |}.

Definition var_token (l : Z) : Token :=
  {| token_type := "Keyword"; token_value := "var"; token_loc := on_line l |}.

(** ['use strict';] on line [l], as object [r]. *)
Definition use_strict (r : nat) (l : Z) (comments : option (list Comment)) : Statement :=
  {| ref := r;
     type := ExpressionStatement (Literal (LString "use strict"));
     statement_loc := on_line l;
     leadingComments := comments |}.

(** [var foo;] on line [l], as object [r]. *)
Definition var_foo (r : nat) (l : Z) : Statement :=
  {| ref := r; type := OtherStatement; statement_loc := on_line l;
     leadingComments := None |}.

(** A source whose directive has no trailing comment and is followed by a
    token on line [l]. *)
Definition source_with_next_token (l : Z) : SourceCode :=
  {| getComments := fun _ => {| leading := []; trailing := [] |};
     getTokenAfter := fun _ => Some (var_token l) |}.

(** A source whose directive is followed by a comment on line [l]; the
    token after it is further down. *)
Definition source_with_trailing_comment (l : Z) : SourceCode :=
  {| getComments := fun _ => {| leading := []; trailing := [line_comment l] |};
     getTokenAfter := fun _ => Some (var_token (l + 5)) |}.

(** A source with nothing after the directive. *)
Definition source_at_end : SourceCode :=
  {| getComments := fun _ => {| leading := []; trailing := [] |};
     getTokenAfter := fun _ => None |}.

(** [// comment\n'use strict';\nvar foo;] *)
Definition crowded_directive : Statement := use_strict 1 2 (Some [line_comment 1]).

Definition crowded_program : ScopeNode :=
  Program [crowded_directive; var_foo 2 3].

(** [// comment\n\n'use strict';\n\nvar foo;] *)
Definition spaced_program : ScopeNode :=
  Program [use_strict 1 3 (Some [line_comment 1]); var_foo 2 5].

(** [function foo() {\n'use strict';\n}] *)
Definition sole_directive_function : ScopeNode :=
  FunctionDeclaration [use_strict 1 2 None].

(** [function foo() {}] *)
Definition empty_function : ScopeNode := FunctionDeclaration [].

(** [() => "use strict";] *)
Definition implicit_return_arrow : ScopeNode :=
  ArrowFunctionExpression (ExpressionBody (Literal (LString "use strict"))).

Definition always_mode : Mode := {| mode_before := "always"; mode_after := "always" |}.
Definition never_mode : Mode := {| mode_before := "never"; mode_after := "never" |}.

(** ** The reports each side owes *)

(** The report [reportError] files. *)
Definition diagnostic (d : Statement) (where_ : string) (expect : bool) : Report :=
  {| node := d;
     message := "{{expected}} newline {{location}} 'use strict' directive.";
     data := {| expected := if expect then "Expected" else "Unexpected";
                location := where_ |} |}.

Definition side_reports (d : Statement) (where_ policy : string) (blank : bool) : list Report :=
  if bool_decide (policy = "always") && negb blank then [diagnostic d where_ true]
  else if bool_decide (policy = "never") && blank then [diagnostic d where_ false]
  else [].

Definition before_reports (mode : Mode) (d : Statement) : list Report :=
  match leadingComments d with
  | Some cs =>
      match last cs with
      | Some c =>
          side_reports d "before" (mode_before mode)
            (bool_decide (line (start (loc d)) - line (end_ (loc c)) >= 2))
      | None => []
      end
  | None => []
  end.

Definition after_reports (sc : SourceCode) (mode : Mode)
    (body : list Statement) (d : Statement) : list Report :=
  if same_node d (last body) then []
  else
    match following sc d with
    | Some t =>
        side_reports d "after" (mode_after mode)
          (bool_decide (line (start (loc t)) - line (end_ (loc d)) >= 2))
    | None => []
    end.


(** How the after check completes: it faults only where it has to
    measure and finds nothing to measure against. *)
Definition after_completion (sc : SourceCode) (mode : Mode)
    (body : list Statement) (d : Statement) : Completion unit :=
  if same_node d (last body) then Normal tt
  else
    match following sc d with
    | Some _ => Normal tt
    | None =>
        if bool_decide (mode_after mode = "always")
           || bool_decide (mode_after mode = "never")
        then Throw TypeError else Normal tt
    end.

(** A policy the schema would have rejected. *)
Definition unknown_mode : Mode := {| mode_before := "sometimes"; mode_after := "sometimes" |}.

(** A source that differs from [source_with_next_token l] in what it
    says about leading comments and about every object but number 1. *)
Definition source_for_first_only (l : Z) : SourceCode :=
  {| getComments := fun _ => {| leading := [line_comment 1]; trailing := [] |};
     getTokenAfter := fun s => if bool_decide (ref s = 1%nat) then Some (var_token l) else None |}.

(** ** Indexing *)

Lemma index_first {A} (l : list A) : index l 0 = head l.
Proof.
  unfold index. destruct (decide (0 <= 0)) as [_|H]; [|lia].
  simpl. now destruct l.
Qed.

Lemma index_last {A} (l : list A) : index l (Z.of_nat (length l) - 1) = last l.
Proof.
  unfold index. destruct l as [|x l].
  - simpl. destruct (decide (0 <= 0 - 1)) as [H|_]; [lia|reflexivity].
  - destruct (decide _) as [_|H]; [|simpl length in H; lia].
    replace (Z.to_nat (Z.of_nat (length (x :: l)) - 1)) with (length l)
      by (simpl length; lia).
    rewrite last_lookup. reflexivity.
Qed.

Lemma last_is_Some {A} (l : list A) : l <> [] -> exists x, last l = Some x.
Proof.
  intros Hl. destruct (last l) as [x|] eqn:E; [eauto|].
  apply last_None in E. contradiction.
Qed.

Lemma length_nonzero {A} (l : list A) :
  bool_decide (length l ≠ 0%nat) = match l with [] => false | _ :: _ => true end.
Proof. now destruct l. Qed.

(** ** The directive locator *)

Lemma value_is_spec (v : LiteralValue) (s : string) :
  value_is v s = true <-> v = LString s.
Proof.
  destruct v; simpl; try (split; [discriminate|discriminate]).
  rewrite bool_decide_eq_true. split; [now intros ->|now intros [= ->]].
Qed.

Lemma isNodeUseStrictDirective_spec (s : Statement) :
  exists b, isNodeUseStrictDirective (Some s) = Normal b
            /\ (b = true <-> IsUseStrictDirective s).
Proof.
  unfold isNodeUseStrictDirective, IsUseStrictDirective.
  destruct (type s) as [[v|]|].
  - exists (value_is v "use strict"). split; [reflexivity|].
    rewrite value_is_spec. split; [now intros ->|now intros [= ->]].
  - exists false. split; [reflexivity|]. split; discriminate.
  - exists false. split; [reflexivity|]. split; discriminate.
Qed.

Lemma getUseStrictDirective_found (s : Statement) (rest : list Statement) :
  IsUseStrictDirective s -> getUseStrictDirective (s :: rest) = Normal (Some s).
Proof.
  intros Hs. unfold getUseStrictDirective. rewrite index_first. cbn [head].
  destruct (isNodeUseStrictDirective_spec s) as (b & -> & Hb).
  apply Hb in Hs. now subst b.
Qed.

Lemma getUseStrictDirective_absent (s : Statement) (rest : list Statement) :
  ~ IsUseStrictDirective s -> getUseStrictDirective (s :: rest) = Normal None.
Proof.
  intros Hs. unfold getUseStrictDirective. rewrite index_first. cbn [head].
  destruct (isNodeUseStrictDirective_spec s) as (b & -> & Hb).
  destruct b; [|reflexivity]. exfalso. apply Hs, Hb. reflexivity.
Qed.

Lemma getUseStrictDirective_empty : getUseStrictDirective [] = Throw TypeError.
Proof. reflexivity. Qed.

(** ** The spacing evaluator *)

Lemma hasNewlineBefore_last (d : Statement) (cs : list Comment) (c : Comment) :
  last cs = Some c ->
  hasNewlineBefore d cs
  = Normal (bool_decide (line (start (loc d)) - line (end_ (loc c)) >= 2)).
Proof.
  intros Hc. unfold hasNewlineBefore. rewrite index_last, Hc. reflexivity.
Qed.

Lemma hasNewlineAfter_following (sc : SourceCode) (d : Statement) :
  hasNewlineAfter sc d
  = match following sc d with
    | Some t => Normal (bool_decide (line (start (loc t)) - line (end_ (loc d)) >= 2))
    | None => Throw TypeError
    end.
Proof.
  unfold hasNewlineAfter, following.
  rewrite length_nonzero, index_first.
  now destruct (trailing (getComments sc d)).
Qed.

(** ** The checker, side by side *)

Ltac run_rule :=
  unfold bind, lift, ret, reportError, report, side_reports, diagnostic;
  repeat case_bool_decide; simpl;
  rewrite ?app_nil_r, <- ?app_assoc; simpl; try congruence.

Lemma checkBefore_reports (mode : Mode) (d : Statement) (rs : list Report) :
  checkBefore mode d rs = (Normal tt, (rs ++ before_reports mode d)%list).
Proof.
  unfold checkBefore, before_reports.
  destruct (leadingComments d) as [cs|]; [|now rewrite app_nil_r].
  rewrite length_nonzero. destruct cs as [|c0 cs]; [now rewrite app_nil_r|].
  destruct (last_is_Some (c0 :: cs)) as [c Hc]; [discriminate|].
  rewrite Hc, (hasNewlineBefore_last d _ c Hc).
  destruct (bool_decide (line (start (loc d)) - line (end_ (loc c)) >= 2));
    run_rule.
Qed.

Lemma checkAfter_last (sc : SourceCode) (mode : Mode)
    (body : list Statement) (d : Statement) (rs : list Report) :
  same_node d (last body) = true ->
  checkAfter sc mode body d rs = (Normal tt, rs).
Proof.
  intros H. unfold checkAfter. rewrite index_last, H. reflexivity.
Qed.

Lemma checkAfter_reports (sc : SourceCode) (mode : Mode)
    (body : list Statement) (d : Statement) (t : Token) (rs : list Report) :
  same_node d (last body) = false ->
  following sc d = Some t ->
  checkAfter sc mode body d rs
  = (Normal tt,
     (rs ++ side_reports d "after" (mode_after mode)
              (bool_decide (line (start (loc t)) - line (end_ (loc d)) >= 2)))%list).
Proof.
  intros H Ht. unfold checkAfter.
  rewrite index_last, H, hasNewlineAfter_following, Ht.
  destruct (bool_decide (line (start (loc t)) - line (end_ (loc d)) >= 2));
    run_rule.
Qed.

Lemma checkAfter_null (sc : SourceCode) (mode : Mode)
    (body : list Statement) (d : Statement) (rs : list Report) :
  same_node d (last body) = false ->
  following sc d = None ->
  checkAfter sc mode body d rs
  = (if bool_decide (mode_after mode = "always") || bool_decide (mode_after mode = "never")
     then Throw TypeError else Normal tt, rs).
Proof.
  intros H Ht. unfold checkAfter.
  rewrite index_last, H, hasNewlineAfter_following, Ht. run_rule.
Qed.

(** Whatever its completion, the after check adds exactly [after_reports]. *)
Lemma checkAfter_adds (sc : SourceCode) (mode : Mode)
    (body : list Statement) (d : Statement) (rs : list Report) :
  snd (checkAfter sc mode body d rs) = (rs ++ after_reports sc mode body d)%list.
Proof.
  unfold after_reports.
  destruct (same_node d (last body)) eqn:H.
  - rewrite checkAfter_last by assumption. now rewrite app_nil_r.
  - destruct (following sc d) as [t|] eqn:Ht.
    + now rewrite (checkAfter_reports _ _ _ _ t).
    + rewrite checkAfter_null by assumption. now rewrite app_nil_r.
Qed.

Lemma checkBody_directive (sc : SourceCode) (mode : Mode)
    (d : Statement) (rest : list Statement) (rs : list Report) :
  IsUseStrictDirective d ->
  checkBody sc mode (d :: rest) rs
  = checkAfter sc mode (d :: rest) d (rs ++ before_reports mode d)%list.
Proof.
  intros Hd. unfold checkBody.
  unfold bind at 1, lift at 1. rewrite getUseStrictDirective_found by assumption.
  unfold bind. now rewrite checkBefore_reports.
Qed.

Lemma checkBody_no_directive (sc : SourceCode) (mode : Mode)
    (s : Statement) (rest : list Statement) (rs : list Report) :
  ~ IsUseStrictDirective s ->
  checkBody sc mode (s :: rest) rs = (Normal tt, rs).
Proof.
  intros Hs. unfold checkBody, bind, lift.
  now rewrite getUseStrictDirective_absent.
Qed.

Lemma checkBody_empty (sc : SourceCode) (mode : Mode) (rs : list Report) :
  checkBody sc mode [] rs = (Throw TypeError, rs).
Proof. reflexivity. Qed.

Lemma checkDirectives_statements (sc : SourceCode) (mode : Mode)
    (n : ScopeNode) (body : list Statement) :
  statements n = Some body ->
  checkDirectives sc mode n = checkBody sc mode body.
Proof.
  destruct n as [b|b|b|[b|e]]; simpl; intros [= <-]; reflexivity.
Qed.

Lemma checkDirectives_expression_arrow (sc : SourceCode) (mode : Mode)
    (n : ScopeNode) (rs : list Report) :
  statements n = None ->
  checkDirectives sc mode n rs = (Normal tt, rs).
Proof.
  destruct n as [b|b|b|[b|e]]; simpl; intros [=]; reflexivity.
Qed.

(** ** Reports of a whole run *)

Lemma directive_or_not (s : Statement) :
  IsUseStrictDirective s \/ ~ IsUseStrictDirective s.
Proof.
  destruct (isNodeUseStrictDirective_spec s) as (b & _ & Hb).
  destruct b; [left; now apply Hb | right; intros H; apply Hb in H; discriminate].
Qed.

Lemma same_node_spec (body : list Statement) (d : Statement) :
  same_node d (last body) = true <-> IsLastStatement body d.
Proof.
  unfold same_node, IsLastStatement. destruct (last body) as [l|].
  - rewrite bool_decide_eq_true. split.
    + intros H. exists l. split; [reflexivity|congruence].
    + intros (l' & [= <-] & H). congruence.
  - split; [discriminate|]. intros (l & [=] & _).
Qed.

Lemma not_last_statement (body : list Statement) (d : Statement) :
  ~ IsLastStatement body d -> same_node d (last body) = false.
Proof.
  intros H. destruct (same_node d (last body)) eqn:E; [|reflexivity].
  apply same_node_spec in E. contradiction.
Qed.

Lemma sole_statement_is_last (d : Statement) : IsLastStatement [d] d.
Proof. exists d. split; reflexivity. Qed.

(** In a tree no object occurs twice, and the first statement is the last
    one only when it is alone. *)
Lemma first_is_last_in_tree (d : Statement) (rest : list Statement) :
  NoDup (map ref (d :: rest)) ->
  IsLastStatement (d :: rest) d <-> rest = [].
Proof.
  intros Hnd. split.
  - intros (l & Hl & Hr). destruct rest as [|s rest]; [reflexivity|exfalso].
    change (NoDup (ref d :: (ref <$> s :: rest))) in Hnd.
    apply NoDup_cons in Hnd as [Hd _]. apply Hd.
    rewrite <- Hr. apply list_elem_of_fmap_2.
    rewrite last_cons_cons in Hl. now apply last_Some_elem_of.
  - intros ->. apply sole_statement_is_last.
Qed.

Lemma reports_directive (sc : SourceCode) (mode : Mode) (n : ScopeNode)
    (d : Statement) (rest : list Statement) :
  statements n = Some (d :: rest) ->
  IsUseStrictDirective d ->
  reports (checkDirectives sc mode n)
  = (before_reports mode d ++ after_reports sc mode (d :: rest) d)%list.
Proof.
  intros Hn Hd. unfold reports.
  rewrite (checkDirectives_statements _ _ _ _ Hn), checkBody_directive by assumption.
  now rewrite checkAfter_adds.
Qed.

Lemma reports_no_directive (sc : SourceCode) (mode : Mode) (n : ScopeNode) :
  (forall d rest, statements n = Some (d :: rest) -> ~ IsUseStrictDirective d) ->
  reports (checkDirectives sc mode n) = [].
Proof.
  intros H. unfold reports. destruct (statements n) as [[|s rest]|] eqn:Hn.
  - now rewrite (checkDirectives_statements _ _ _ _ Hn).
  - rewrite (checkDirectives_statements _ _ _ _ Hn), checkBody_no_directive; eauto.
  - now rewrite checkDirectives_expression_arrow.
Qed.

Lemma side_reports_cases (d : Statement) (where_ policy : string) (blank : bool) :
  (side_reports d where_ policy blank = [diagnostic d where_ true]
     /\ policy = "always" /\ blank = false)
  \/ (side_reports d where_ policy blank = [diagnostic d where_ false]
     /\ policy = "never" /\ blank = true)
  \/ (side_reports d where_ policy blank = []
     /\ ~ (policy = "always" /\ blank = false) /\ ~ (policy = "never" /\ blank = true)).
Proof.
  unfold side_reports. repeat case_bool_decide; destruct blank; simpl;
    first [ left; now repeat split
          | right; left; now repeat split
          | right; right; repeat split; intros [? ?]; congruence ].
Qed.

Lemma side_reports_side (d : Statement) (where_ policy : string) (blank : bool) (r : Report) :
  r ∈ side_reports d where_ policy blank -> node r = d /\ side r = where_.
Proof.
  destruct (side_reports_cases d where_ policy blank)
    as [(-> & _)|[(-> & _)|(-> & _)]];
    intros Hr; [apply list_elem_of_singleton in Hr as ->; now split ..|].
  now apply not_elem_of_nil in Hr.
Qed.

Lemma side_reports_length (d : Statement) (where_ policy : string) (blank : bool) :
  (length (side_reports d where_ policy blank) <= 1)%nat.
Proof.
  destruct (side_reports_cases d where_ policy blank)
    as [(-> & _)|[(-> & _)|(-> & _)]]; simpl; lia.
Qed.

Lemma before_reports_side (mode : Mode) (d : Statement) (r : Report) :
  r ∈ before_reports mode d -> node r = d /\ side r = "before".
Proof.
  unfold before_reports. destruct (leadingComments d) as [cs|];
    [destruct (last cs)|]; try (now intros ?%not_elem_of_nil).
  apply side_reports_side.
Qed.

Lemma after_reports_side (sc : SourceCode) (mode : Mode)
    (body : list Statement) (d : Statement) (r : Report) :
  r ∈ after_reports sc mode body d -> node r = d /\ side r = "after".
Proof.
  unfold after_reports. destruct (same_node d (last body));
    [|destruct (following sc d)]; try (now intros ?%not_elem_of_nil).
  apply side_reports_side.
Qed.

Lemma before_reports_length (mode : Mode) (d : Statement) :
  (length (before_reports mode d) <= 1)%nat.
Proof.
  unfold before_reports. destruct (leadingComments d) as [cs|];
    [destruct (last cs)|]; simpl; try lia.
  apply side_reports_length.
Qed.

Lemma after_reports_length (sc : SourceCode) (mode : Mode)
    (body : list Statement) (d : Statement) :
  (length (after_reports sc mode body d) <= 1)%nat.
Proof.
  unfold after_reports. destruct (same_node d (last body));
    [|destruct (following sc d)]; simpl; try lia.
  apply side_reports_length.
Qed.

Lemma rendered_diagnostic (d : Statement) (where_ : string) (expect : bool) :
  where_ = "before" \/ where_ = "after" ->
  rendered (diagnostic d where_ expect) = diagnostic_text expect where_.
Proof. intros [-> | ->]; destruct expect; reflexivity. Qed.

(** ** Completion of a run *)

(** With a first statement in the body, and something after the directive
    whenever it is not the last statement, the handler returns. *)
Lemma checkDirectives_returns (sc : SourceCode) (mode : Mode) (n : ScopeNode) :
  (forall body, statements n = Some body -> body <> []) ->
  (forall d rest, statements n = Some (d :: rest) ->
     ~ IsLastStatement (d :: rest) d -> following sc d <> None) ->
  completion (checkDirectives sc mode n) = Normal tt.
Proof.
  intros Hne Hnext. unfold completion.
  destruct (statements n) as [[|s rest]|] eqn:Hn.
  - now destruct (Hne [] eq_refl).
  - rewrite (checkDirectives_statements _ _ _ _ Hn).
    destruct (directive_or_not s) as [Hs|Hs].
    + rewrite checkBody_directive by assumption.
      destruct (same_node s (last (s :: rest))) eqn:E.
      * now rewrite checkAfter_last.
      * destruct (following sc s) as [t|] eqn:Ht.
        -- now rewrite (checkAfter_reports _ _ _ _ t).
        -- exfalso. apply (Hnext s rest eq_refl); [|assumption].
           intros Hl. apply same_node_spec in Hl. congruence.
    + now rewrite checkBody_no_directive.
  - now rewrite checkDirectives_expression_arrow.
Qed.

(** C1.  The specification has the check call return for every scope, an
    empty body included.  The code faults there: for a scope with an
    empty statement list [body[0]] is [undefined], and reading its [type]
    raises a [TypeError] before any report is made.  This holds for each of
    the four kinds of scope, for every policy and every source. *)
Theorem empty_body_throws (sc : SourceCode) (mode : Mode) :
  checkDirectives sc mode (Program []) [] = (Throw TypeError, [])
  /\ checkDirectives sc mode empty_function [] = (Throw TypeError, [])
  /\ checkDirectives sc mode (FunctionExpression []) [] = (Throw TypeError, [])
  /\ checkDirectives sc mode (ArrowFunctionExpression (BlockStatement [])) []
     = (Throw TypeError, []).
Proof. repeat split. Qed.

(** C2.  For a directive with at least one leading comment, the blank line
    before it is measured against the last leading comment: the measure
    returns, and it answers yes exactly when the directive starts two or
    more lines below the end of that comment.  A distance of one line is
    answered no. *)
Theorem hasNewlineBefore_threshold (d : Statement) (cs : list Comment) :
  cs <> [] ->
  exists (c : Comment) (b : bool),
    last cs = Some c
    /\ hasNewlineBefore d cs = Normal b
    /\ (b = true <-> line (start (loc d)) - line (end_ (loc c)) >= 2)
    /\ (line (start (loc d)) - line (end_ (loc c)) = 1 -> b = false).
Proof.
  intros Hcs. destruct (last_is_Some cs Hcs) as [c Hc].
  exists c, (bool_decide (line (start (loc d)) - line (end_ (loc c)) >= 2)).
  split; [exact Hc|]. split; [now apply hasNewlineBefore_last|].
  split.
  - apply bool_decide_eq_true.
  - intros H. apply bool_decide_eq_false. lia.
Qed.

Lemma hasNewlineBefore_threshold_witness :
  [line_comment 1; line_comment 4] <> []
  /\ exists (c : Comment) (b : bool),
       last [line_comment 1; line_comment 4] = Some c
       /\ hasNewlineBefore (use_strict 1 5 None) [line_comment 1; line_comment 4] = Normal b
       /\ (b = true <-> line (start (loc (use_strict 1 5 None))) - line (end_ (loc c)) >= 2)
       /\ (line (start (loc (use_strict 1 5 None))) - line (end_ (loc c)) = 1 -> b = false).
Proof.
  assert ([line_comment 1; line_comment 4] <> []) as H by discriminate.
  split; [exact H|].
  exact (hasNewlineBefore_threshold (use_strict 1 5 None) [line_comment 1; line_comment 4] H).
Defined.

(** C3.  The blank line after a directive is measured against the first
    trailing comment when there is one, and against the next token
    otherwise: with [el] that element, the measure returns, and it answers
    yes exactly when [el] starts two or more lines below the end of the
    directive. *)
Theorem hasNewlineAfter_threshold (sc : SourceCode) (d : Statement) (el : Token) :
  (exists rest, trailing (getComments sc d) = el :: rest)
  \/ (trailing (getComments sc d) = [] /\ getTokenAfter sc d = Some el) ->
  exists b : bool,
    hasNewlineAfter sc d = Normal b
    /\ (b = true <-> line (start (loc el)) - line (end_ (loc d)) >= 2).
Proof.
  intros H.
  assert (following sc d = Some el) as Hf.
  { unfold following. destruct H as [[rest ->]|[-> H]]; [reflexivity|exact H]. }
  eexists. split.
  - rewrite hasNewlineAfter_following, Hf. reflexivity.
  - apply bool_decide_eq_true.
Qed.

Lemma hasNewlineAfter_threshold_witness :
  trailing (getComments (source_with_trailing_comment 4) (use_strict 1 2 None))
  = [line_comment 4]
  /\ exists b : bool,
       hasNewlineAfter (source_with_trailing_comment 4) (use_strict 1 2 None) = Normal b
       /\ (b = true <->
           line (start (loc (line_comment 4))) - line (end_ (loc (use_strict 1 2 None))) >= 2).
Proof.
  split; [reflexivity|].
  apply (hasNewlineAfter_threshold (source_with_trailing_comment 4) (use_strict 1 2 None)).
  left. exists []. reflexivity.
Defined.

(** ** What is reported *)

Lemma side_reports_violates (d : Statement) (where_ policy : string) (blank : Prop)
    `{Decision blank} :
  (exists r, r ∈ side_reports d where_ policy (bool_decide blank))
  <-> violates policy blank.
Proof.
  unfold violates.
  destruct (side_reports_cases d where_ policy (bool_decide blank))
    as [(-> & Hp & Hb)|[(-> & Hp & Hb)|(-> & Ha & Hn)]].
  - apply bool_decide_eq_false in Hb. split; [now left|].
    intros _. eexists. apply list_elem_of_singleton. reflexivity.
  - apply bool_decide_eq_true in Hb. split; [now right|].
    intros _. eexists. apply list_elem_of_singleton. reflexivity.
  - split.
    + intros [r Hr]. now apply not_elem_of_nil in Hr.
    + intros [[Hp Hb]|[Hp Hb]]; exfalso.
      * apply Ha. split; [assumption|]. now apply bool_decide_eq_false.
      * apply Hn. split; [assumption|]. now apply bool_decide_eq_true.
Qed.

Lemma side_reports_text (d : Statement) (where_ policy : string) (blank : bool) (r : Report) :
  where_ = "before" \/ where_ = "after" ->
  r ∈ side_reports d where_ policy blank ->
  rendered r = diagnostic_text (bool_decide (policy = "always")) where_.
Proof.
  intros Hw.
  destruct (side_reports_cases d where_ policy blank)
    as [(-> & Hp & _)|[(-> & Hp & _)|(-> & _)]]; intros Hr.
  - apply list_elem_of_singleton in Hr as ->. subst policy.
    now rewrite rendered_diagnostic.
  - apply list_elem_of_singleton in Hr as ->. subst policy.
    now rewrite rendered_diagnostic.
  - now apply not_elem_of_nil in Hr.
Qed.

Lemma before_reports_violates (mode : Mode) (d : Statement)
    (cs : list Comment) (c : Comment) :
  leadingComments d = Some cs ->
  last cs = Some c ->
  (exists r, r ∈ before_reports mode d)
  <-> violates (mode_before mode)
        (blank_between (line (end_ (loc c))) (line (start (loc d)))).
Proof.
  intros Hcs Hc. unfold before_reports, blank_between. rewrite Hcs, Hc.
  apply side_reports_violates.
Qed.

Lemma after_reports_violates (sc : SourceCode) (mode : Mode)
    (body : list Statement) (d : Statement) (t : Token) :
  ~ IsLastStatement body d ->
  following sc d = Some t ->
  (exists r, r ∈ after_reports sc mode body d)
  <-> violates (mode_after mode)
        (blank_between (line (end_ (loc d))) (line (start (loc t)))).
Proof.
  intros Hl Ht. unfold after_reports, blank_between.
  rewrite (not_last_statement _ _ Hl), Ht.
  apply side_reports_violates.
Qed.

Lemma before_reports_text (mode : Mode) (d : Statement) (r : Report) :
  r ∈ before_reports mode d ->
  rendered r = diagnostic_text (bool_decide (mode_before mode = "always")) "before".
Proof.
  unfold before_reports. destruct (leadingComments d) as [cs|];
    [destruct (last cs)|]; try (now intros ?%not_elem_of_nil).
  intros Hr. eapply side_reports_text; [now left|exact Hr].
Qed.

Lemma after_reports_text (sc : SourceCode) (mode : Mode)
    (body : list Statement) (d : Statement) (r : Report) :
  r ∈ after_reports sc mode body d ->
  rendered r = diagnostic_text (bool_decide (mode_after mode = "always")) "after".
Proof.
  unfold after_reports. destruct (same_node d (last body));
    [|destruct (following sc d)]; try (now intros ?%not_elem_of_nil).
  intros Hr. eapply side_reports_text; [now right|exact Hr].
Qed.

(** C4.  Take a scope whose body starts with the directive [d].
    - Where [d] has leading comments, the last of them [c], a report about
      "before" exists exactly when the before policy is violated: it is
      [always] and no blank line lies between [c] and [d], or it is [never]
      and one does.
    - Where [d] is not the last statement and is followed by [t] (its
      first trailing comment, or else the next token), the handler returns
      and a report about "after" exists exactly when the after policy is
      violated.
    - Every report is anchored at [d] and shows
      "Expected newline <side> 'use strict' directive." under [always] and
      "Unexpected newline <side> 'use strict' directive." under [never].
    - The sides do not suppress each other: when both are in violation
      both are reported, before first. *)
Theorem checkDirectives_diagnostics (sc : SourceCode) (mode : Mode) (n : ScopeNode)
    (d : Statement) (rest : list Statement) :
  statements n = Some (d :: rest) ->
  IsUseStrictDirective d ->
  (forall cs c,
     leadingComments d = Some cs -> last cs = Some c ->
     (exists r, r ∈ reports (checkDirectives sc mode n) /\ side r = "before")
     <-> violates (mode_before mode)
           (blank_between (line (end_ (loc c))) (line (start (loc d)))))
  /\ (forall t,
        ~ IsLastStatement (d :: rest) d -> following sc d = Some t ->
        completion (checkDirectives sc mode n) = Normal tt
        /\ ((exists r, r ∈ reports (checkDirectives sc mode n) /\ side r = "after")
            <-> violates (mode_after mode)
                  (blank_between (line (end_ (loc d))) (line (start (loc t))))))
  /\ (forall r, r ∈ reports (checkDirectives sc mode n) ->
        node r = d
        /\ ((side r = "before"
             /\ rendered r
                = diagnostic_text (bool_decide (mode_before mode = "always")) "before")
            \/ (side r = "after"
                /\ rendered r
                   = diagnostic_text (bool_decide (mode_after mode = "always")) "after")))
  /\ (forall cs c t,
        leadingComments d = Some cs -> last cs = Some c ->
        ~ IsLastStatement (d :: rest) d -> following sc d = Some t ->
        violates (mode_before mode)
          (blank_between (line (end_ (loc c))) (line (start (loc d)))) ->
        violates (mode_after mode)
          (blank_between (line (end_ (loc d))) (line (start (loc t)))) ->
        exists rb ra,
          reports (checkDirectives sc mode n) = [rb; ra]
          /\ side rb = "before" /\ side ra = "after").
Proof.
  intros Hn Hd.
  rewrite (reports_directive _ _ _ _ _ Hn Hd).
  pose proof (before_reports_side mode d) as SB.
  pose proof (after_reports_side sc mode (d :: rest) d) as SA.
  split; [|split; [|split]].
  - intros cs c Hcs Hc. rewrite <- (before_reports_violates mode d cs c Hcs Hc).
    split.
    + intros (r & Hr & Hs). apply elem_of_app in Hr as [Hr|Hr]; [eauto|].
      apply SA in Hr as [_ Hr]. congruence.
    + intros [r Hr]. exists r. split; [apply elem_of_app; now left|now apply SB].
  - intros t Hl Ht. split.
    + unfold completion.
      rewrite (checkDirectives_statements _ _ _ _ Hn), checkBody_directive by assumption.
      now rewrite (checkAfter_reports _ _ _ _ t) by (try apply not_last_statement; assumption).
    + rewrite <- (after_reports_violates sc mode (d :: rest) d t Hl Ht).
      split.
      * intros (r & Hr & Hs). apply elem_of_app in Hr as [Hr|Hr]; [|eauto].
        apply SB in Hr as [_ Hr]. congruence.
      * intros [r Hr]. exists r. split; [apply elem_of_app; now right|now apply SA].
  - intros r Hr. apply elem_of_app in Hr as [Hr|Hr].
    + split; [now apply SB|]. left. split; [now apply SB|].
      eapply before_reports_text; exact Hr.
    + split; [now apply SA|]. right. split; [now apply SA|].
      eapply after_reports_text; exact Hr.
  - intros cs c t Hcs Hc Hl Ht Vb Va.
    apply (before_reports_violates mode d cs c Hcs Hc) in Vb as [rb Hb].
    apply (after_reports_violates sc mode (d :: rest) d t Hl Ht) in Va as [ra Ha].
    exists rb, ra.
    pose proof (before_reports_length mode d) as LB.
    pose proof (after_reports_length sc mode (d :: rest) d) as LA.
    destruct (before_reports mode d) as [|b1 [|b2 B]];
      [now apply not_elem_of_nil in Hb| |simpl in LB; lia].
    destruct (after_reports sc mode (d :: rest) d) as [|a1 [|a2 A]];
      [now apply not_elem_of_nil in Ha| |simpl in LA; lia].
    apply list_elem_of_singleton in Hb as ->. apply list_elem_of_singleton in Ha as ->.
    split; [reflexivity|]. split.
    + apply (SB b1). now apply list_elem_of_singleton.
    + apply (SA a1). now apply list_elem_of_singleton.
Qed.

Lemma checkDirectives_diagnostics_witness :
  IsUseStrictDirective crowded_directive
  /\ ~ IsLastStatement [crowded_directive; var_foo 2 3] crowded_directive
  /\ following (source_with_next_token 3) crowded_directive = Some (var_token 3)
  /\ completion (checkDirectives (source_with_next_token 3) always_mode crowded_program)
     = Normal tt
  /\ exists rb ra,
       reports (checkDirectives (source_with_next_token 3) always_mode crowded_program)
       = [rb; ra]
       /\ side rb = "before" /\ side ra = "after".
Proof.
  assert (~ IsLastStatement [crowded_directive; var_foo 2 3] crowded_directive) as Hl.
  { intros (l & Hl & Hr). injection Hl as <-. discriminate Hr. }
  destruct (checkDirectives_diagnostics (source_with_next_token 3) always_mode
              crowded_program crowded_directive [var_foo 2 3] eq_refl eq_refl)
    as (_ & Hafter & _ & Hboth).
  split; [reflexivity|]. split; [exact Hl|]. split; [reflexivity|].
  split; [exact (proj1 (Hafter (var_token 3) Hl eq_refl))|].
  apply (Hboth [line_comment 1] (line_comment 1) (var_token 3));
    try reflexivity; try exact Hl;
    left; (split; [reflexivity|]); unfold blank_between; simpl; lia.
Defined.

(** C5.  For a directive whose leading-comment list is absent or empty,
    no report about "before" is made, whatever the policy and whatever
    comes after the directive. *)
Theorem no_leading_comments_no_before (sc : SourceCode) (mode : Mode) (n : ScopeNode)
    (d : Statement) (rest : list Statement) :
  statements n = Some (d :: rest) ->
  IsUseStrictDirective d ->
  leadingComments d = None \/ leadingComments d = Some [] ->
  forall r, r ∈ reports (checkDirectives sc mode n) -> side r <> "before".
Proof.
  intros Hn Hd Hcs r. rewrite (reports_directive _ _ _ _ _ Hn Hd).
  assert (before_reports mode d = []) as ->.
  { unfold before_reports. now destruct Hcs as [-> | ->]. }
  simpl. intros Hr%after_reports_side. destruct Hr as [_ ->]. discriminate.
Qed.

Lemma no_leading_comments_no_before_witness :
  leadingComments (use_strict 1 1 (Some [])) = Some []
  /\ reports (checkDirectives (source_with_next_token 2) always_mode
                (Program [use_strict 1 1 (Some []); var_foo 2 2]))
     = [diagnostic (use_strict 1 1 (Some [])) "after" true]
  /\ forall r,
       r ∈ reports (checkDirectives (source_with_next_token 2) always_mode
                      (Program [use_strict 1 1 (Some []); var_foo 2 2])) ->
       side r <> "before".
Proof.
  split; [reflexivity|]. split; [reflexivity|].
  apply (no_leading_comments_no_before (source_with_next_token 2) always_mode
           (Program [use_strict 1 1 (Some []); var_foo 2 2])
           (use_strict 1 1 (Some [])) [var_foo 2 2]);
    [reflexivity | reflexivity | right; reflexivity].
Defined.

(** C6.  For a directive that is the last statement of its body, the sole
    statement of a body being the first case of it, the handler returns
    and makes no report about "after", whatever the policy. *)
Theorem last_statement_no_after (sc : SourceCode) (mode : Mode) (n : ScopeNode)
    (d : Statement) (rest : list Statement) :
  statements n = Some (d :: rest) ->
  IsUseStrictDirective d ->
  rest = [] \/ IsLastStatement (d :: rest) d ->
  completion (checkDirectives sc mode n) = Normal tt
  /\ forall r, r ∈ reports (checkDirectives sc mode n) -> side r <> "after".
Proof.
  intros Hn Hd Hlast.
  assert (same_node d (last (d :: rest)) = true) as Hs.
  { apply same_node_spec. destruct Hlast as [-> | H]; [apply sole_statement_is_last|exact H]. }
  split.
  - unfold completion.
    rewrite (checkDirectives_statements _ _ _ _ Hn), checkBody_directive by assumption.
    now rewrite checkAfter_last.
  - intros r. rewrite (reports_directive _ _ _ _ _ Hn Hd).
    unfold after_reports. rewrite Hs, app_nil_r.
    intros Hr%before_reports_side. destruct Hr as [_ ->]. discriminate.
Qed.

Lemma last_statement_no_after_witness :
  statements sole_directive_function = Some [use_strict 1 2 None]
  /\ completion (checkDirectives source_at_end never_mode sole_directive_function)
     = Normal tt
  /\ forall r,
       r ∈ reports (checkDirectives source_at_end never_mode sole_directive_function) ->
       side r <> "after".
Proof.
  split; [reflexivity|].
  apply (last_statement_no_after source_at_end never_mode sole_directive_function
           (use_strict 1 2 None) []);
    [reflexivity | reflexivity | left; reflexivity].
Defined.

(** ** Skips, options and counts *)

(** C7.  For a scope that is an arrow function with an expression body, or
    whose body does not start with the "use strict" expression statement,
    the handler makes no report, whatever the policy; where the body has a
    first statement (or the scope is such an arrow function) it also
    returns.  Only position 0 is looked at: the directive found in a body
    does not depend on the statements after the first. *)
Theorem no_directive_no_reports (sc : SourceCode) (mode : Mode) (n : ScopeNode) :
  statements n = None
  \/ (exists body, statements n = Some body
        /\ forall s, head body = Some s -> ~ IsUseStrictDirective s) ->
  reports (checkDirectives sc mode n) = []
  /\ (statements n <> Some [] -> checkDirectives sc mode n [] = (Normal tt, []))
  /\ (forall s rest rest',
        statements n = Some (s :: rest) ->
        getUseStrictDirective (s :: rest') = getUseStrictDirective (s :: rest)).
Proof.
  intros H. split; [|split].
  - apply reports_no_directive. intros d rest Hn.
    destruct H as [H|(body & Hb & H)]; [congruence|].
    apply H. rewrite Hn in Hb. now injection Hb as <-.
  - intros Hne. destruct H as [H|(body & Hb & H)].
    + now apply checkDirectives_expression_arrow.
    + destruct body as [|s rest]; [congruence|].
      rewrite (checkDirectives_statements _ _ _ _ Hb).
      apply checkBody_no_directive. now apply H.
  - intros s rest rest' _. unfold getUseStrictDirective.
    now rewrite !index_first.
Qed.

Lemma no_directive_no_reports_witness :
  statements implicit_return_arrow = None
  /\ (exists body,
        statements (Program [var_foo 1 1; use_strict 2 2 (Some [line_comment 1])])
        = Some body
        /\ forall s, head body = Some s -> ~ IsUseStrictDirective s)
  /\ reports (checkDirectives (source_with_next_token 3) always_mode implicit_return_arrow)
     = []
  /\ reports (checkDirectives (source_with_next_token 3) always_mode
                (Program [var_foo 1 1; use_strict 2 2 (Some [line_comment 1])]))
     = [].
Proof.
  assert (exists body,
        statements (Program [var_foo 1 1; use_strict 2 2 (Some [line_comment 1])])
        = Some body
        /\ forall s, head body = Some s -> ~ IsUseStrictDirective s) as H.
  { eexists. split; [reflexivity|]. intros s [= <-]. discriminate. }
  split; [reflexivity|]. split; [exact H|]. split.
  - apply (no_directive_no_reports (source_with_next_token 3) always_mode
             implicit_return_arrow). left. reflexivity.
  - apply (no_directive_no_reports (source_with_next_token 3) always_mode
             (Program [var_foo 1 1; use_strict 2 2 (Some [line_comment 1])])).
    right. exact H.
Defined.

(** C8.  For [m] one of "always" and "never", the handler created with the
    bare option [m] is the handler created with the object option
    [{before: m, after: m}]: on every scope they complete alike and make
    the same reports. *)
Theorem bare_mode_is_uniform_object (sc : SourceCode) (m : string) (n : ScopeNode) :
  m = "always" \/ m = "never" ->
  create (with_options sc [ConfigString m]) n
  = create (with_options sc [ConfigObject m m]) n.
Proof. intros [-> | ->]; reflexivity. Qed.

Lemma bare_mode_is_uniform_object_witness :
  create (with_options (source_with_next_token 3) [ConfigString "never"]) crowded_program
  = create (with_options (source_with_next_token 3) [ConfigObject "never" "never"])
      crowded_program.
Proof.
  apply (bare_mode_is_uniform_object (source_with_next_token 3) "never" crowded_program).
  right. reflexivity.
Defined.

(** C9.  With no option given the resolved policy is "always" on both
    sides, and the handler is the one created with the bare option
    "always": on every scope they complete alike and make the same
    reports. *)
Theorem default_is_always (sc : SourceCode) (n : ScopeNode) :
  generateMode (config_or_default (index (options (with_options sc [])) 0)) = always_mode
  /\ create (with_options sc []) n = create (with_options sc [ConfigString "always"]) n.
Proof. split; reflexivity. Qed.

(** C10.  Whatever the scope, the source and the policy, a run makes at
    most one report about "before" and at most one about "after", hence at
    most two; and two reports of a run about the same side carry the same
    word, so a side is never reported both as "Expected" and as
    "Unexpected". *)
Theorem at_most_one_report_per_side (sc : SourceCode) (mode : Mode) (n : ScopeNode) :
  (length (filter (fun r => side r = "before") (reports (checkDirectives sc mode n))) <= 1)%nat
  /\ (length (filter (fun r => side r = "after") (reports (checkDirectives sc mode n))) <= 1)%nat
  /\ (length (reports (checkDirectives sc mode n)) <= 2)%nat
  /\ (forall r1 r2,
        r1 ∈ reports (checkDirectives sc mode n) ->
        r2 ∈ reports (checkDirectives sc mode n) ->
        side r1 = side r2 ->
        expected (data r1) = expected (data r2)).
Proof.
  assert (reports (checkDirectives sc mode n) = []
          \/ exists d body, reports (checkDirectives sc mode n)
                            = (before_reports mode d ++ after_reports sc mode body d)%list)
    as [-> | (d & body & ->)].
  { destruct (statements n) as [[|s rest]|] eqn:Hn.
    - left. apply reports_no_directive. intros ? ? H. congruence.
    - destruct (directive_or_not s) as [Hs|Hs].
      + right. exists s, (s :: rest). now apply reports_directive.
      + left. apply reports_no_directive. intros ? ? H.
        rewrite Hn in H. now injection H as <- <-.
    - left. apply reports_no_directive. intros ? ? H. congruence. }
  { simpl. repeat split; try lia. intros r1 r2 H. now apply not_elem_of_nil in H. }
  pose proof (before_reports_length mode d) as LB.
  pose proof (after_reports_length sc mode body d) as LA.
  pose proof (before_reports_side mode d) as SB.
  pose proof (after_reports_side sc mode body d) as SA.
  destruct (before_reports mode d) as [|b [|b' B]]; [| |simpl in LB; lia];
    destruct (after_reports sc mode body d) as [|a [|a' A]]; try (simpl in LA; lia);
    clear LA LB.
  all: try (destruct (SB b) as [_ Hb]; [now left|]).
  all: try (destruct (SA a) as [_ Ha]; [now left|]).
  all: simpl; rewrite ?filter_cons, ?filter_nil.
  all: repeat case_decide; simpl; try congruence.
  all: repeat split; try lia.
  all: intros r1 r2 Hr1 Hr2 Hs.
  all: repeat match goal with
       | H : _ ∈ [] |- _ => now apply not_elem_of_nil in H
       | H : _ ∈ _ :: _ |- _ => apply elem_of_cons in H as [-> | H]
       end; congruence.
Qed.

(** * Further properties of the rule *)

(** ** Runs from any report list *)

Lemma checkAfter_run (sc : SourceCode) (mode : Mode)
    (body : list Statement) (d : Statement) (rs : list Report) :
  checkAfter sc mode body d rs
  = (after_completion sc mode body d, (rs ++ after_reports sc mode body d)%list).
Proof.
  unfold after_completion, after_reports.
  destruct (same_node d (last body)) eqn:H.
  - rewrite checkAfter_last by assumption. now rewrite app_nil_r.
  - destruct (following sc d) as [t|] eqn:Ht.
    + now rewrite (checkAfter_reports _ _ _ _ t).
    + rewrite checkAfter_null by assumption. now rewrite app_nil_r.
Qed.

Lemma checkBody_run (sc : SourceCode) (mode : Mode)
    (d : Statement) (rest : list Statement) (rs : list Report) :
  IsUseStrictDirective d ->
  checkBody sc mode (d :: rest) rs
  = (after_completion sc mode (d :: rest) d,
     (rs ++ before_reports mode d ++ after_reports sc mode (d :: rest) d)%list).
Proof.
  intros Hd. rewrite checkBody_directive, checkAfter_run by assumption.
  now rewrite app_assoc.
Qed.



Lemma reports_with_side (sc : SourceCode) (mode : Mode) (n : ScopeNode)
    (d : Statement) (rest : list Statement) :
  statements n = Some (d :: rest) ->
  IsUseStrictDirective d ->
  ((exists r, r ∈ reports (checkDirectives sc mode n) /\ side r = "before")
   <-> exists r, r ∈ before_reports mode d)
  /\ ((exists r, r ∈ reports (checkDirectives sc mode n) /\ side r = "after")
      <-> exists r, r ∈ after_reports sc mode (d :: rest) d).
Proof.
  intros Hn Hd. rewrite (reports_directive _ _ _ _ _ Hn Hd).
  pose proof (before_reports_side mode d) as SB.
  pose proof (after_reports_side sc mode (d :: rest) d) as SA.
  split; split.
  - intros (r & Hr & Hs). apply elem_of_app in Hr as [Hr|Hr]; [eauto|].
    apply SA in Hr as [_ Hr]. congruence.
  - intros [r Hr]. exists r. split; [apply elem_of_app; now left|now apply SB].
  - intros (r & Hr & Hs). apply elem_of_app in Hr as [Hr|Hr]; [|eauto].
    apply SB in Hr as [_ Hr]. congruence.
  - intros [r Hr]. exists r. split; [apply elem_of_app; now right|now apply SA].
Qed.

(** ** The locator and the guards *)

(** X1.  The locator answers with a statement exactly when that statement
    is the first of the body and is the "use strict" expression statement;
    it answers [null] exactly when the body has a first statement that is
    not; and it faults exactly on the empty body. *)
Theorem getUseStrictDirective_exact (body : list Statement) :
  (getUseStrictDirective body = Throw TypeError <-> body = [])
  /\ (forall d, getUseStrictDirective body = Normal (Some d)
                <-> exists rest, body = d :: rest /\ IsUseStrictDirective d)
  /\ (getUseStrictDirective body = Normal None
      <-> exists s rest, body = s :: rest /\ ~ IsUseStrictDirective s).
Proof.
  destruct body as [|s rest].
  - rewrite getUseStrictDirective_empty. repeat split; try discriminate.
    + intros (? & [=] & _).
    + intros (? & ? & [=] & _).
  - destruct (directive_or_not s) as [Hs|Hs].
    + rewrite getUseStrictDirective_found by assumption. repeat split; try discriminate.
      * intros [= <-]. eauto.
      * intros (? & [= <- <-] & _). reflexivity.
      * intros (? & ? & [= <- <-] & H). contradiction.
    + rewrite getUseStrictDirective_absent by assumption. repeat split; try discriminate.
      * intros (? & [= <- <-] & H). contradiction.
      * eauto.
Qed.

(** X2.  The spacing measure before the directive faults exactly on an
    empty comment list, and the before check, which calls it only behind
    the test of [leadingComments.length], never faults: for every policy
    and every first statement it returns, having kept the earlier reports
    in place. *)
Theorem before_check_never_throws :
  (forall d cs, hasNewlineBefore d cs = Throw TypeError <-> cs = [])
  /\ (forall mode d rs,
        fst (checkBefore mode d rs) = Normal tt
        /\ exists added, snd (checkBefore mode d rs) = (rs ++ added)%list).
Proof.
  split.
  - intros d cs. split.
    + intros H. destruct cs as [|c cs]; [reflexivity|].
      destruct (last_is_Some (c :: cs)) as [c' Hc]; [discriminate|].
      rewrite (hasNewlineBefore_last _ _ _ Hc) in H. discriminate.
    + intros ->. reflexivity.
  - intros mode d rs. rewrite checkBefore_reports. split; [reflexivity|eauto].
Qed.

(** X3.  The handler faults in exactly two situations: the body of the
    scope is empty; or the body starts with the directive, the directive
    is not the last statement, the policy for "after" is one of the two
    known words, and the source has neither a trailing comment nor a next
    token for the directive. *)
Theorem checkDirectives_throws_exactly (sc : SourceCode) (mode : Mode) (n : ScopeNode) :
  completion (checkDirectives sc mode n) = Throw TypeError
  <-> statements n = Some []
      \/ exists d rest,
           statements n = Some (d :: rest)
           /\ IsUseStrictDirective d
           /\ ~ IsLastStatement (d :: rest) d
           /\ following sc d = None
           /\ (mode_after mode = "always" \/ mode_after mode = "never").
Proof.
  unfold completion. destruct (statements n) as [[|s rest]|] eqn:Hn.
  - rewrite (checkDirectives_statements _ _ _ _ Hn), checkBody_empty. simpl.
    split; [now left|reflexivity].
  - rewrite (checkDirectives_statements _ _ _ _ Hn).
    destruct (directive_or_not s) as [Hs|Hs].
    + rewrite checkBody_run by assumption. simpl. unfold after_completion.
      destruct (same_node s (last (s :: rest))) eqn:E.
      * split; [discriminate|]. intros [[=]|(d & r & [= <- <-] & _ & Hl & _)].
        apply same_node_spec in E. contradiction.
      * assert (~ IsLastStatement (s :: rest) s) as Hl
          by (intros H%same_node_spec; congruence).
        destruct (following sc s) as [t|] eqn:Ht.
        -- split; [discriminate|].
           intros [[=]|(d & r & [= <- <-] & _ & _ & Hf & _)]. congruence.
        -- repeat case_bool_decide; simpl.
           all: split;
             [ try discriminate; intros _; right; exists s, rest; tauto
             | try (intros _; reflexivity) ].
           intros [[=]|(d & r & _ & _ & _ & _ & [H'|H'])]; contradiction.
    + rewrite checkBody_no_directive by assumption. simpl.
      split; [discriminate|].
      intros [[=]|(d & r & [= <- <-] & Hd & _)]. contradiction.
  - rewrite checkDirectives_expression_arrow by assumption. simpl.
    split; [discriminate|]. intros [[=]|(d & r & [=] & _)].
Qed.


(** ** Several visits *)



(** ** What a run depends on *)

(** X6.  The handler does not tell the kinds of scope apart: two scopes
    with the same statement list (a program and a function body, say), or
    two arrow functions with expression bodies, are handled alike. *)
Theorem same_statements_same_run (sc : SourceCode) (mode : Mode) (n n' : ScopeNode) :
  statements n = statements n' ->
  checkDirectives sc mode n = checkDirectives sc mode n'.
Proof.
  destruct n as [b|b|b|[b|e]], n' as [b'|b'|b'|[b'|e']]; simpl;
    intros [=]; subst; reflexivity.
Qed.

Lemma same_statements_same_run_witness :
  statements crowded_program
  = statements (ArrowFunctionExpression
                  (BlockStatement [crowded_directive; var_foo 2 3]))
  /\ checkDirectives (source_with_next_token 3) never_mode crowded_program
     = checkDirectives (source_with_next_token 3) never_mode
         (ArrowFunctionExpression (BlockStatement [crowded_directive; var_foo 2 3])).
Proof.
  split; [reflexivity|].
  apply (same_statements_same_run (source_with_next_token 3) never_mode).
  reflexivity.
Defined.

Lemma checkAfter_same_node (sc : SourceCode) (mode : Mode)
    (body body' : list Statement) (d : Statement) (rs : list Report) :
  same_node d (last body) = same_node d (last body') ->
  checkAfter sc mode body d rs = checkAfter sc mode body' d rs.
Proof.
  intros H. unfold checkAfter. rewrite !index_last, H. reflexivity.
Qed.

Lemma same_node_in_tree (d : Statement) (rest : list Statement) :
  NoDup (map ref (d :: rest)) ->
  rest <> [] ->
  same_node d (last (d :: rest)) = false.
Proof.
  intros Hnd Hne. apply not_last_statement.
  intros H. now apply (first_is_last_in_tree d rest Hnd) in H.
Qed.

(** X7.  In a body that is a tree (no object occurs twice) nothing after
    the first statement is read, beyond whether there is anything: two
    bodies with the same first statement, each followed by at least one
    more, are handled alike. *)
Theorem later_statements_unread (sc : SourceCode) (mode : Mode)
    (s : Statement) (rest rest' : list Statement) (rs : list Report) :
  NoDup (map ref (s :: rest)) ->
  NoDup (map ref (s :: rest')) ->
  rest <> [] ->
  rest' <> [] ->
  checkDirectives sc mode (Program (s :: rest)) rs
  = checkDirectives sc mode (Program (s :: rest')) rs.
Proof.
  intros Hnd Hnd' Hne Hne'. simpl.
  destruct (directive_or_not s) as [Hs|Hs].
  - rewrite !checkBody_directive by assumption.
    apply checkAfter_same_node.
    now rewrite !same_node_in_tree.
  - now rewrite !checkBody_no_directive.
Qed.

Lemma later_statements_unread_witness :
  NoDup (map ref [crowded_directive; var_foo 2 3])
  /\ NoDup (map ref [crowded_directive; use_strict 2 3 (Some [line_comment 1]);
                     var_foo 3 9])
  /\ checkDirectives (source_with_next_token 3) always_mode crowded_program []
     = checkDirectives (source_with_next_token 3) always_mode
         (Program [crowded_directive; use_strict 2 3 (Some [line_comment 1]);
                   var_foo 3 9]) [].
Proof.
  assert (NoDup (map ref [crowded_directive; var_foo 2 3])) as H1
    by (refine (bool_decide_unpack _ _); vm_compute; exact I).
  assert (NoDup (map ref [crowded_directive; use_strict 2 3 (Some [line_comment 1]);
                          var_foo 3 9])) as H2
    by (refine (bool_decide_unpack _ _); vm_compute; exact I).
  split; [exact H1|]. split; [exact H2|].
  apply (later_statements_unread (source_with_next_token 3) always_mode
           crowded_directive [var_foo 2 3]
           [use_strict 2 3 (Some [line_comment 1]); var_foo 3 9] []);
    [exact H1 | exact H2 | discriminate | discriminate].
Defined.

(** X8.  In a body that is a tree, whose directive is followed by [t] in
    the source, a report about "after" exists exactly when the body has a
    statement after the directive and the after policy is violated. *)
Theorem after_report_in_tree (sc : SourceCode) (mode : Mode) (n : ScopeNode)
    (d : Statement) (rest : list Statement) (t : Token) :
  statements n = Some (d :: rest) ->
  IsUseStrictDirective d ->
  NoDup (map ref (d :: rest)) ->
  following sc d = Some t ->
  (exists r, r ∈ reports (checkDirectives sc mode n) /\ side r = "after")
  <-> rest <> []
      /\ violates (mode_after mode)
           (blank_between (line (end_ (loc d))) (line (start (loc t)))).
Proof.
  intros Hn Hd Hnd Ht.
  rewrite (proj2 (reports_with_side sc mode n d rest Hn Hd)).
  destruct rest as [|s rest].
  - unfold after_reports.
    rewrite (proj2 (same_node_spec [d] d) (sole_statement_is_last d)).
    split; [intros [r Hr]; now apply not_elem_of_nil in Hr|now intros [? _]].
  - assert (~ IsLastStatement (d :: s :: rest) d) as Hl.
    { intros H. now apply (first_is_last_in_tree d (s :: rest) Hnd) in H. }
    rewrite (after_reports_violates sc mode _ d t Hl Ht).
    split; [now split|now intros [_ ?]].
Qed.

Lemma after_report_in_tree_witness :
  NoDup (map ref [crowded_directive; var_foo 2 3])
  /\ ((exists r, r ∈ reports (checkDirectives (source_with_next_token 3) always_mode
                                crowded_program)
                 /\ side r = "after")
      <-> [var_foo 2 3] <> []
          /\ violates (mode_after always_mode)
               (blank_between (line (end_ (loc crowded_directive)))
                              (line (start (loc (var_token 3)))))).
Proof.
  assert (NoDup (map ref [crowded_directive; var_foo 2 3])) as H1
    by (refine (bool_decide_unpack _ _); vm_compute; exact I).
  split; [exact H1|].
  apply (after_report_in_tree (source_with_next_token 3) always_mode crowded_program
           crowded_directive [var_foo 2 3] (var_token 3));
    [reflexivity | reflexivity | exact H1 | reflexivity].
Defined.

(** ** Policies *)

Lemma violates_always_never (blank : Prop) :
  violates "always" blank <-> ~ violates "never" blank.
Proof.
  unfold violates. split.
  - intros [[_ Hb]|[[=] _]] [[[=] _]|[_ Hb']]. contradiction.
  - intros H. left. split; [reflexivity|]. intros Hb. apply H. now right.
Qed.

(** X9.  The two policies are complementary on every side that is
    checked.  Take a scope whose body starts with the directive.  Where
    the directive has leading comments, exactly one of a run under before
    = "always" and a run under before = "never" reports about "before";
    where it is not last and something follows it, exactly one of a run
    under after = "always" and a run under after = "never" reports about
    "after". *)
Theorem always_never_complementary (sc : SourceCode) (m1 m2 : Mode) (n : ScopeNode)
    (d : Statement) (rest : list Statement) :
  statements n = Some (d :: rest) ->
  IsUseStrictDirective d ->
  (forall cs c,
     leadingComments d = Some cs -> last cs = Some c ->
     mode_before m1 = "always" -> mode_before m2 = "never" ->
     (exists r, r ∈ reports (checkDirectives sc m1 n) /\ side r = "before")
     <-> ~ (exists r, r ∈ reports (checkDirectives sc m2 n) /\ side r = "before"))
  /\ (forall t,
        ~ IsLastStatement (d :: rest) d -> following sc d = Some t ->
        mode_after m1 = "always" -> mode_after m2 = "never" ->
        (exists r, r ∈ reports (checkDirectives sc m1 n) /\ side r = "after")
        <-> ~ (exists r, r ∈ reports (checkDirectives sc m2 n) /\ side r = "after")).
Proof.
  intros Hn Hd. split.
  - intros cs c Hcs Hc H1 H2.
    rewrite (proj1 (reports_with_side sc m1 n d rest Hn Hd)).
    rewrite (proj1 (reports_with_side sc m2 n d rest Hn Hd)).
    rewrite !(before_reports_violates _ d cs c Hcs Hc), H1, H2.
    apply violates_always_never.
  - intros t Hl Ht H1 H2.
    rewrite (proj2 (reports_with_side sc m1 n d rest Hn Hd)).
    rewrite (proj2 (reports_with_side sc m2 n d rest Hn Hd)).
    rewrite !(after_reports_violates sc _ _ d t Hl Ht), H1, H2.
    apply violates_always_never.
Qed.

Lemma always_never_complementary_witness :
  (exists r, r ∈ reports (checkDirectives (source_with_next_token 3) always_mode
                            crowded_program)
             /\ side r = "before")
  /\ ~ (exists r, r ∈ reports (checkDirectives (source_with_next_token 3) never_mode
                                 crowded_program)
                  /\ side r = "before").
Proof.
  destruct (always_never_complementary (source_with_next_token 3) always_mode never_mode
              crowded_program crowded_directive [var_foo 2 3] eq_refl eq_refl)
    as [Hb _].
  specialize (Hb [line_comment 1] (line_comment 1) eq_refl eq_refl eq_refl eq_refl).
  assert (exists r, r ∈ reports (checkDirectives (source_with_next_token 3) always_mode
                                   crowded_program)
                    /\ side r = "before") as H.
  { eexists. split; [apply list_elem_of_here|reflexivity]. }
  split; [exact H|]. apply Hb. exact H.
Defined.

(** X10.  A policy word other than "always" and "never" switches its side
    off.  With such a word for "before" no report is about "before"; with
    such a word for "after" no report is about "after" and, unless the
    body is empty, the handler returns whatever the source has after the
    directive. *)
Theorem unknown_policy_is_silent (sc : SourceCode) (mode : Mode) (n : ScopeNode) :
  (mode_before mode <> "always" -> mode_before mode <> "never" ->
     forall r, r ∈ reports (checkDirectives sc mode n) -> side r <> "before")
  /\ (mode_after mode <> "always" -> mode_after mode <> "never" ->
        (forall r, r ∈ reports (checkDirectives sc mode n) -> side r <> "after")
        /\ (statements n <> Some [] ->
            completion (checkDirectives sc mode n) = Normal tt)).
Proof.
  assert (forall d w p b, p <> "always" -> p <> "never" -> side_reports d w p b = [])
    as Hoff.
  { intros d w p b Ha Hn. unfold side_reports. now repeat case_bool_decide. }
  destruct (statements n) as [[|s rest]|] eqn:Hn.
  1,3: assert (reports (checkDirectives sc mode n) = []) as ->
         by (apply reports_no_directive; intros ? ? H; congruence).
  1,2: (split; [intros _ _ r Hr; now apply not_elem_of_nil in Hr|];
        intros _ _; split; [intros r Hr; now apply not_elem_of_nil in Hr|]).
  - intros H. now destruct H.
  - intros _. unfold completion. now rewrite checkDirectives_expression_arrow.
  - destruct (directive_or_not s) as [Hs|Hs].
    + rewrite (reports_directive _ _ _ _ _ Hn Hs). unfold completion.
      rewrite (checkDirectives_statements _ _ _ _ Hn), checkBody_run by assumption.
      split.
      * intros Ha Hn' r Hr. apply elem_of_app in Hr as [Hr|Hr].
        -- revert Hr. unfold before_reports.
           destruct (leadingComments s) as [cs|]; [destruct (last cs)|];
             rewrite ?Hoff by assumption; now intros ?%not_elem_of_nil.
        -- apply after_reports_side in Hr as [_ ->]. discriminate.
      * intros Ha Hn'. split.
        -- intros r Hr. apply elem_of_app in Hr as [Hr|Hr].
           ++ apply before_reports_side in Hr as [_ ->]. discriminate.
           ++ revert Hr. unfold after_reports.
              destruct (same_node s (last (s :: rest))); [|destruct (following sc s)];
                rewrite ?Hoff by assumption; now intros ?%not_elem_of_nil.
        -- intros _. simpl. unfold after_completion.
           destruct (same_node s (last (s :: rest))); [reflexivity|].
           destruct (following sc s); [reflexivity|].
           now repeat case_bool_decide.
    + assert (reports (checkDirectives sc mode n) = []) as ->.
      { apply reports_no_directive. intros ? ? H. rewrite Hn in H.
        now injection H as <- <-. }
      split; [intros _ _ r Hr; now apply not_elem_of_nil in Hr|].
      intros _ _; split; [intros r Hr; now apply not_elem_of_nil in Hr|].
      intros _. unfold completion.
      now rewrite (checkDirectives_statements _ _ _ _ Hn), checkBody_no_directive.
Qed.

Lemma unknown_policy_is_silent_witness :
  mode_after unknown_mode <> "always"
  /\ reports (checkDirectives source_at_end unknown_mode crowded_program) = []
  /\ completion (checkDirectives source_at_end unknown_mode crowded_program) = Normal tt
  /\ completion (checkDirectives source_at_end always_mode crowded_program)
     = Throw TypeError.
Proof.
  destruct (unknown_policy_is_silent source_at_end unknown_mode crowded_program)
    as [_ Hafter].
  assert (mode_after unknown_mode <> "always") as Ha by discriminate.
  assert (mode_after unknown_mode <> "never") as Hn by discriminate.
  split; [exact Ha|]. split; [reflexivity|].
  split; [|reflexivity].
  apply (proj2 (Hafter Ha Hn)). discriminate.
Defined.

(** X11.  The options of [create].  A bare option that is any non-empty
    string gives the handler of the object option with that string on both
    sides; the empty string, being falsy, gives the handler of no option
    at all, which is not the handler of the object option with the empty
    string on both sides; and options after the first are not read. *)
Theorem bare_option_boundary :
  (forall sc s n,
     s <> "" ->
     create (with_options sc [ConfigString s]) n
     = create (with_options sc [ConfigObject s s]) n)
  /\ (forall sc n,
        create (with_options sc [ConfigString ""]) n = create (with_options sc []) n)
  /\ (exists sc n,
        reports (create (with_options sc [ConfigString ""]) n)
        <> reports (create (with_options sc [ConfigObject "" ""]) n))
  /\ (forall sc c more n,
        create (with_options sc (c :: more)) n = create (with_options sc [c]) n).
Proof.
  split; [|split; [|split]].
  - intros sc s n Hs. destruct s; [contradiction|reflexivity].
  - reflexivity.
  - exists (source_with_next_token 3), crowded_program. discriminate.
  - reflexivity.
Qed.

Lemma bare_option_boundary_witness :
  "sometimes" <> ""
  /\ create (with_options source_at_end [ConfigString "sometimes"]) crowded_program
     = create (with_options source_at_end [ConfigObject "sometimes" "sometimes"])
         crowded_program.
Proof.
  assert ("sometimes" <> "") as H by discriminate.
  split; [exact H|].
  exact (proj1 bare_option_boundary source_at_end "sometimes" crowded_program H).
Defined.

Lemma checkAfter_source (sc sc' : SourceCode) (mode : Mode)
    (body : list Statement) (d : Statement) (rs : list Report) :
  hasNewlineAfter sc d = hasNewlineAfter sc' d ->
  checkAfter sc mode body d rs = checkAfter sc' mode body d rs.
Proof. intros H. unfold checkAfter. rewrite H. reflexivity. Qed.

(** X12.  Of the source the handler reads only the trailing comments and
    the next token of the first statement of the body: two sources that
    agree on these are handled alike, whatever they say about leading
    comments or about other nodes. *)
Theorem source_read_at_first_statement (sc sc' : SourceCode) (mode : Mode)
    (n : ScopeNode) (rs : list Report) :
  (forall s rest,
     statements n = Some (s :: rest) ->
     trailing (getComments sc s) = trailing (getComments sc' s)
     /\ getTokenAfter sc s = getTokenAfter sc' s) ->
  checkDirectives sc mode n rs = checkDirectives sc' mode n rs.
Proof.
  intros H. destruct (statements n) as [[|s rest]|] eqn:Hn.
  - now rewrite !(checkDirectives_statements _ _ _ _ Hn).
  - rewrite !(checkDirectives_statements _ _ _ _ Hn).
    destruct (directive_or_not s) as [Hs|Hs].
    + rewrite !checkBody_directive by assumption.
      apply checkAfter_source. destruct (H s rest eq_refl) as [Ht Hk].
      unfold hasNewlineAfter. now rewrite Ht, Hk.
    + now rewrite !checkBody_no_directive.
  - now rewrite !checkDirectives_expression_arrow.
Qed.

Lemma source_read_at_first_statement_witness :
  getComments (source_with_next_token 3) crowded_directive
  <> getComments (source_for_first_only 3) crowded_directive
  /\ getTokenAfter (source_with_next_token 3) (var_foo 2 3)
     <> getTokenAfter (source_for_first_only 3) (var_foo 2 3)
  /\ checkDirectives (source_with_next_token 3) always_mode crowded_program []
     = checkDirectives (source_for_first_only 3) always_mode crowded_program [].
Proof.
  split; [discriminate|]. split; [discriminate|].
  apply (source_read_at_first_statement (source_with_next_token 3)
           (source_for_first_only 3) always_mode crowded_program []).
  intros s rest [= <- <-]. split; reflexivity.
Defined.

(** ** Acceptance *)

Lemma side_reports_empty (d : Statement) (where_ policy : string) (blank : Prop)
    `{Decision blank} :
  side_reports d where_ policy (bool_decide blank) = [] <-> ~ violates policy blank.
Proof.
  rewrite <- (side_reports_violates d where_ policy blank).
  destruct (side_reports d where_ policy (bool_decide blank)) as [|r l].
  - split; [|reflexivity]. intros _ [r Hr]. now apply not_elem_of_nil in Hr.
  - split; [discriminate|]. intros Hno. exfalso. apply Hno. exists r. apply list_elem_of_here.
Qed.

(** X13.  A scope whose body starts with the directive passes, that is the
    run makes no report at all, exactly when neither checked side is in
    violation: the before policy is not violated against the last leading
    comment, if there is one, and the after policy is not violated against
    what follows the directive, if it is not the last statement and
    something follows. *)
Theorem passes_exactly_when_conforming (sc : SourceCode) (mode : Mode) (n : ScopeNode)
    (d : Statement) (rest : list Statement) :
  statements n = Some (d :: rest) ->
  IsUseStrictDirective d ->
  reports (checkDirectives sc mode n) = []
  <-> (forall cs c,
         leadingComments d = Some cs -> last cs = Some c ->
         ~ violates (mode_before mode)
             (blank_between (line (end_ (loc c))) (line (start (loc d)))))
      /\ (forall t,
            ~ IsLastStatement (d :: rest) d -> following sc d = Some t ->
            ~ violates (mode_after mode)
                (blank_between (line (end_ (loc d))) (line (start (loc t))))).
Proof.
  intros Hn Hd. rewrite (reports_directive _ _ _ _ _ Hn Hd).
  rewrite app_nil. unfold before_reports, after_reports, blank_between.
  match goal with |- ?A /\ ?B <-> ?P /\ ?Q =>
    assert (A <-> P) as Hbefore; [|assert (B <-> Q) as Hafter; [|tauto]]
  end.
  - destruct (leadingComments d) as [cs|]; [destruct (last cs) as [c|] eqn:Hc|].
    + rewrite side_reports_empty. split.
      * intros H cs0 c0 [= <-] Hc0. rewrite Hc in Hc0. injection Hc0 as <-. exact H.
      * intros H. now apply (H cs c).
    + split; [|reflexivity]. intros _ cs0 c0 [= <-] Hc0. congruence.
    + split; [|reflexivity]. intros _ ? ? [=].
  - destruct (same_node d (last (d :: rest))) eqn:E.
    + split; [|reflexivity]. intros _ t Hl. apply same_node_spec in E. contradiction.
    + assert (~ IsLastStatement (d :: rest) d) as Hl
        by (intros H%same_node_spec; congruence).
      destruct (following sc d) as [t|].
      * rewrite side_reports_empty. split.
        -- intros H ? _ [= <-]. exact H.
        -- intros H. now apply (H t).
      * split; [|reflexivity]. intros _ ? _ [=].
Qed.

Lemma passes_exactly_when_conforming_witness :
  reports (checkDirectives (source_with_next_token 5) always_mode spaced_program) = []
  /\ ~ violates (mode_after always_mode)
         (blank_between (line (end_ (loc (use_strict 1 3 (Some [line_comment 1])))))
                        (line (start (loc (var_token 5))))).
Proof.
  destruct (passes_exactly_when_conforming (source_with_next_token 5) always_mode
              spaced_program (use_strict 1 3 (Some [line_comment 1])) [var_foo 2 5]
              eq_refl eq_refl) as [Hpass _].
  split; [reflexivity|].
  apply (proj2 (Hpass eq_refl) (var_token 5)); [|reflexivity].
  intros (l & Hl & Hr). injection Hl as <-. discriminate Hr.
Defined.
